(** * A shallow embedding of [app1.py]: policy retrieval and templated answers

    The program keeps two insurance policies in the module-level dictionary
    [MOCK_POLICY_DATA], selects the policies a free-text query mentions
    ([retrieve_policy_info]) and renders one of four sentence templates for
    the first of them ([generate_response]).

    Modelling choices.
    - A Python [str] is a [string] of 8-bit characters; [lower] and [title]
      change the ASCII letters and leave every other character alone.  The
      identifiers, customer names, keywords and templates of the program are
      ASCII.
    - A Python [dict] whose iteration order is observable is an association
      list in insertion order; [==] on dictionaries is [dict_eqb], which does
      not look at the order.
    - A policy dictionary always has the same six keys, so it is a record.
    - The module-level dictionary is the state of a small state-and-exception
      monad [M]; both functions only ever read it.
    - [list[0]] on an empty list raises [IndexError].
    - The body of the script is a function of the value of [st.chat_input]
      and of the session ([script]); Streamlit's drawing calls are recorded
      as the list of elements of the page, and [st.session_state] holds the
      one key the script uses. *)

From Stdlib Require Import String Ascii List Bool Arith.
Import ListNotations.
Local Open Scope list_scope.
Local Open Scope string_scope.

(** ** Strings as Python uses them *)

Module Str.

Definition code (c : ascii) : nat := nat_of_ascii c.

Definition is_upper (c : ascii) : bool := ((65 <=? code c) && (code c <=? 90))%nat.
Definition is_lower (c : ascii) : bool := ((97 <=? code c) && (code c <=? 122))%nat.
Definition is_cased (c : ascii) : bool := is_upper c || is_lower c.

Definition lower_char (c : ascii) : ascii :=
  if is_upper c then ascii_of_nat (code c + 32) else c.
Definition upper_char (c : ascii) : ascii :=
  if is_lower c then ascii_of_nat (code c - 32) else c.

(** [s.lower()] *)
Fixpoint lower (s : string) : string :=
  match s with
  | EmptyString => EmptyString
  | String c s' => String (lower_char c) (lower s')
  end.

(** [s.title()]: a cased character is upper-cased when the character before
    it is not cased, and lower-cased otherwise. *)
Fixpoint title_from (previous_is_cased : bool) (s : string) : string :=
  match s with
  | EmptyString => EmptyString
  | String c s' =>
      String (if previous_is_cased then lower_char c else upper_char c)
             (title_from (is_cased c) s')
  end.
Definition title (s : string) : string := title_from false s.

(** [s.replace(old, new)] for one-character [old] and [new], the only way
    the program calls it. *)
Fixpoint replace (old new : ascii) (s : string) : string :=
  match s with
  | EmptyString => EmptyString
  | String c s' =>
      String (if Ascii.eqb c old then new else c) (replace old new s')
  end.

(** [sub in s] *)
Fixpoint str_in (sub s : string) : bool :=
  match s with
  | EmptyString => prefix sub EmptyString
  | String _ s' => prefix sub s || str_in sub s'
  end.

(** [sep.join(parts)] *)
Definition join (sep : string) (parts : list string) : string :=
  String.concat sep parts.

Definition newline : string := String (ascii_of_nat 10) EmptyString.

(** What "occurs as a contiguous substring" means. *)
Definition Substring (sub s : string) : Prop :=
  exists before after, s = before ++ sub ++ after.

End Str.
Import Str.

(** ** Dictionaries with an observable order *)

Definition dict : Type := list (string * string).

Fixpoint dict_get (k : string) (d : dict) : option string :=
  match d with
  | [] => None
  | (k', v) :: d' => if String.eqb k k' then Some v else dict_get k d'
  end.

(** [d1 == d2]: same size, and every key of [d1] has an equal value in [d2]. *)
Definition dict_eqb (d1 d2 : dict) : bool :=
  Nat.eqb (List.length d1) (List.length d2)
  && forallb (fun kv =>
                match dict_get (fst kv) d2 with
                | Some v' => String.eqb (snd kv) v'
                | None => false
                end) d1.

(** ** The data model *)

Record PolicyRecord : Type := mkPolicy {
  customer_name : string;
  policy_type : string;
  coverage : dict;
  premium : string;
  deductible : string;
  exclusions : string
}.

(** [v == policy] on two policy dictionaries. *)
Definition policy_eqb (p1 p2 : PolicyRecord) : bool :=
  String.eqb (customer_name p1) (customer_name p2)
  && String.eqb (policy_type p1) (policy_type p2)
  && dict_eqb (coverage p1) (coverage p2)
  && String.eqb (premium p1) (premium p2)
  && String.eqb (deductible p1) (deductible p2)
  && String.eqb (exclusions p1) (exclusions p2).

Definition PolicyStore : Type := list (string * PolicyRecord).

Definition jane_doe : PolicyRecord := {|
  customer_name := "Jane Doe";
  policy_type := "Auto Insurance";
  coverage := [ ("collision", "Up to $50,000");
                ("comprehensive", "Up to $25,000");
                ("roadside_assistance", "Included") ];
  premium := "$120/month";
  deductible := "$500";
  exclusions := "Off-road driving and commercial use."
|}.

Definition john_smith : PolicyRecord := {|
  customer_name := "John Smith";
  policy_type := "Home Insurance";
  coverage := [ ("fire", "Full replacement value");
                ("theft", "Up to $10,000");
                ("natural_disaster", "Not included (separate policy)") ];
  premium := "$85/month";
  deductible := "$1,000";
  exclusions := "Damage from floods and earthquakes."
|}.

Definition MOCK_POLICY_DATA : PolicyStore :=
  [ ("policy_1001", jane_doe); ("policy_1002", john_smith) ].

(** ** Reading the module-level dictionary, and raising *)

Inductive exn : Type := IndexError.

Inductive outcome (A : Type) : Type :=
| Returned (a : A)
| Raised (e : exn).
Arguments Returned {A} a.
Arguments Raised {A} e.

Definition M (A : Type) : Type := PolicyStore -> outcome A * PolicyStore.

Definition ret {A} (a : A) : M A := fun g => (Returned a, g).
Definition raise {A} (e : exn) : M A := fun g => (Raised e, g).
Definition bind {A B} (m : M A) (k : A -> M B) : M B :=
  fun g =>
    match m g with
    | (Returned a, g') => k a g'
    | (Raised e, g') => (Raised e, g')
    end.

Notation "x <- m ;; k" := (bind m (fun x => k))
  (at level 61, m at next level, right associativity).

(** [MOCK_POLICY_DATA.items()] *)
Definition items : M (list (string * PolicyRecord)) := fun g => (Returned g, g).

(** [l[0]] *)
Definition first {A} (l : list A) : M A :=
  match l with
  | [] => raise IndexError
  | x :: _ => ret x
  end.

(** The result of a computation started in the program's initial state. *)
Definition run {A} (m : M A) : outcome A := fst (m MOCK_POLICY_DATA).

(** ** [retrieve_policy_info] *)

Definition mentions (query : string) (policy_id : string) (policy_details : PolicyRecord) : bool :=
  str_in policy_id query
  || str_in (lower (customer_name policy_details)) (lower query).

(** The [for] loop, with [retrieved_info] as the accumulator. *)
Fixpoint retrieve_loop (query : string) (its : list (string * PolicyRecord))
         (retrieved_info : list PolicyRecord) : list PolicyRecord :=
  match its with
  | [] => retrieved_info
  | (policy_id, policy_details) :: rest =>
      if mentions query policy_id policy_details
      then retrieve_loop query rest (retrieved_info ++ [policy_details])%list
      else retrieve_loop query rest retrieved_info
  end.

Definition retrieve_policy_info (query : string) : M (list PolicyRecord) :=
  its <- items ;;
  ret (retrieve_loop query its []).

(** ** [generate_response] *)

Definition APOLOGY : string :=
  "I'm sorry, I couldn't find any relevant policy information for that query. Please check the policy number or customer name.".

(** [[k for k, v in MOCK_POLICY_DATA.items() if v == policy]] *)
Definition keys_of (policy : PolicyRecord) (its : list (string * PolicyRecord)) : list string :=
  map fst (filter (fun kv => policy_eqb (snd kv) policy) its).

Definition coverage_line (kv : string * string) : string :=
  "- " ++ title (replace "_" " " (fst kv)) ++ ": " ++ snd kv.

Definition coverage_answer (customer_name policy_id : string) (policy : PolicyRecord) : string :=
  let coverage_list := map coverage_line (coverage policy) in
  let coverage_text := join newline coverage_list in
  "Hello, the policy details for " ++ customer_name ++ " (Policy ID: " ++ policy_id
    ++ ") indicate the following coverage:" ++ newline ++ newline ++ coverage_text.

Definition premium_answer (customer_name policy_id : string) (policy : PolicyRecord) : string :=
  "The monthly premium for " ++ customer_name ++ "'s policy (Policy ID: " ++ policy_id
    ++ ") is " ++ premium policy ++ ".".

Definition deductible_answer (customer_name policy_id : string) (policy : PolicyRecord) : string :=
  "The deductible for " ++ customer_name ++ "'s policy (Policy ID: " ++ policy_id
    ++ ") is " ++ deductible policy ++ ".".

Definition fallback_answer (customer_name policy_id : string) (policy : PolicyRecord) : string :=
  "Based on the information for " ++ customer_name ++ " (Policy ID: " ++ policy_id
    ++ "), I can confirm that the policy type is '" ++ policy_type policy
    ++ "'. How can I assist further?".

(** The [if]/[elif] chain on the lower-cased query. *)
Definition answer (query customer_name policy_id : string) (policy : PolicyRecord) : string :=
  if str_in "coverage" (lower query) then coverage_answer customer_name policy_id policy
  else if str_in "premium" (lower query) then premium_answer customer_name policy_id policy
  else if str_in "deductible" (lower query) then deductible_answer customer_name policy_id policy
  else fallback_answer customer_name policy_id policy.

Definition generate_response (query : string) (context : list PolicyRecord) : M string :=
  match context with
  | [] => ret APOLOGY
  | policy :: _ =>
      let customer_name := customer_name policy in
      its <- items ;;
      policy_id <- first (keys_of policy its) ;;
      ret (answer query customer_name policy_id policy)
  end.

(** The two calls the chat handler makes for one prompt. *)
Definition handle_prompt (prompt : string) : M string :=
  context <- retrieve_policy_info prompt ;;
  generate_response prompt context.


(** [MOCK_POLICY_DATA[k]] as a partial function. *)
Fixpoint store_get (k : string) (g : PolicyStore) : option PolicyRecord :=
  match g with
  | [] => None
  | (k', v) :: g' => if String.eqb k k' then Some v else store_get k g'
  end.

(** ** The same pipeline with the identifier carried next to the record

    The alternative the specification proposes: retrieval returns
    [(identifier, record)] pairs and the answer uses the identifier of the
    first pair. *)

Definition retrieve_pairs (query : string) (g : PolicyStore) : list (string * PolicyRecord) :=
  filter (fun kv => mentions query (fst kv) (snd kv)) g.

Definition respond_pairs (query : string) (matches : list (string * PolicyRecord)) : string :=
  match matches with
  | [] => APOLOGY
  | (policy_id, policy) :: _ => answer query (customer_name policy) policy_id policy
  end.

(** The retrieval condition in the specification's words. *)
Definition spec_match (query : string) (kv : string * PolicyRecord) : Prop :=
  Substring (fst kv) query
  \/ Substring (lower (customer_name (snd kv))) (lower query).

(** A record that is in no store: used to exercise [generate_response] on a
    context that [retrieve_policy_info] cannot produce. *)
Definition stranger : PolicyRecord := {|
  customer_name := "Alex Roe";
  policy_type := "Travel Insurance";
  coverage := [ ("baggage", "Up to $1,000") ];
  premium := "$10/month";
  deductible := "$0";
  exclusions := "None."
|}.

(** ** Stores other than the shipped one

    Both functions read whatever the module-level dictionary holds.  Two
    conditions on a store matter to them: a coverage dictionary has each key
    once (every Python [dict] does), and no two entries hold records that are
    [==]. *)

Definition unique_coverage_keys (g : PolicyStore) : Prop :=
  forall kv, In kv g -> NoDup (map fst (coverage (snd kv))).

Definition distinct_records (g : PolicyStore) : Prop :=
  forall k1 v1 k2 v2,
    In (k1, v1) g -> In (k2, v2) g -> policy_eqb v1 v2 = true -> k1 = k2.

(** ** The chat page

    The body of the script, which Streamlit runs once per interaction with
    [st.session_state] kept from the run before.  What a run draws is the
    list of elements it creates, in call order; a [with] block is an element
    with a body. *)

Record message : Type := mkMessage {
  role : string;
  content : string
}.

#[warning="-register-all"]
Inductive element : Type :=
| Title (text : string)
| Markdown (text : string)
| ChatMessage (name : string) (body : list element)
| Spinner (text : string) (body : list element)
| ChatInput (placeholder : string).

(** The module-level dictionary and [st.session_state.messages], which is
    absent in a new session. *)
Record session : Type := mkSession {
  store : PolicyStore;
  messages : option (list message)
}.

(** The messages of a session, none when the key is absent. *)
Definition transcript (s : session) : list message :=
  match messages s with
  | None => []
  | Some ms => ms
  end.

Definition TITLE : string := "🤖 Gen AI-Powered CSR Assistant".
Definition INTRO : string :=
  "Enter a customer's policy number or name and their query to get a quick response.".
Definition PLACEHOLDER : string :=
  "Enter customer's query (e.g., 'What is the coverage for Jane Doe?'):".

(** [with st.chat_message(message["role"]): st.markdown(message["content"])] *)
Definition show (message : message) : element :=
  ChatMessage (role message) [Markdown (content message)].

(** [if prompt := st.chat_input(...)]: [None] and the empty string are
    false. *)
Definition truthy (chat_input : option string) : option string :=
  match chat_input with
  | Some EmptyString => None
  | other => other
  end.

(** One run of the script with [chat_input] as the value of
    [st.chat_input(...)]: the outcome, the session it leaves and the page it
    drew. *)
Definition script (chat_input : option string) (s : session)
  : outcome unit * session * list element :=
  let page := [Title TITLE; Markdown INTRO; Markdown "---"] in
  let history := match messages s with
                 | None => []
                 | Some ms => ms
                 end in
  let page := (page ++ map show history ++ [ChatInput PLACEHOLDER])%list in
  match truthy chat_input with
  | None => (Returned tt, {| store := store s; messages := Some history |}, page)
  | Some prompt =>
      let history := (history ++ [{| role := "user"; content := prompt |}])%list in
      let page := (page ++ [ChatMessage "user" [Markdown prompt]])%list in
      match handle_prompt prompt (store s) with
      | (Raised e, g) =>
          (Raised e, {| store := g; messages := Some history |},
           (page ++ [ChatMessage "assistant" [Spinner "Thinking..." []]])%list)
      | (Returned response, g) =>
          (Returned tt,
           {| store := g;
              messages := Some (history ++ [{| role := "assistant"; content := response |}])%list |},
           (page ++ [ChatMessage "assistant" [Spinner "Thinking..." [Markdown response]]])%list)
      end
  end.

(** A session: the script is run again for every interaction. *)
Fixpoint reruns (inputs : list (option string)) (s : session)
  : list (outcome unit) * session :=
  match inputs with
  | [] => ([], s)
  | chat_input :: later =>
      let '(result, s', _) := script chat_input s in
      let '(results, s'') := reruns later s' in
      (result :: results, s'')
  end.

Definition new_session : session :=
  {| store := MOCK_POLICY_DATA; messages := None |}.



(** The transcript a list of prompts should leave: for each prompt the user's
    turn and then the assistant's turn with the answer of the pipeline. *)
Definition reply (prompt : string) : string :=
  match run (handle_prompt prompt) with
  | Returned text => text
  | Raised _ => ""
  end.

Definition exchange (prompt : string) : list message :=
  [ {| role := "user"; content := prompt |};
    {| role := "assistant"; content := reply prompt |} ].

Definition prompts_of (inputs : list (option string)) : list string :=
  flat_map (fun chat_input =>
              match truthy chat_input with
              | Some prompt => [prompt]
              | None => []
              end) inputs.

(** ** Substring search *)

Section SubstringSearch.

Lemma prefix_iff (sub s : string) :
  prefix sub s = true <-> exists after, s = sub ++ after.
Proof.
  revert s; induction sub as [|a sub IH]; intros [|b s]; cbn [prefix].
  - split; [intros _; exists ""; reflexivity | reflexivity].
  - split; [intros _; exists (String b s); reflexivity | reflexivity].
  - split; [discriminate | intros [after H]; discriminate H].
  - destruct (ascii_dec a b) as [->|Hab].
    + rewrite IH. split; intros [after H]; exists after.
      * cbn. now rewrite <- H.
      * cbn in H. now injection H.
    + split; [discriminate | intros [after H]].
      cbn in H. injection H as H1 _. congruence.
Qed.

Lemma append_assoc (a b c : string) : (a ++ b) ++ c = a ++ b ++ c.
Proof. induction a as [|x a IH]; cbn; [reflexivity | now rewrite IH]. Qed.

Lemma append_eq_empty (a b : string) : a ++ b = "" -> a = "" /\ b = "".
Proof. destruct a; cbn; [intros ->; split; reflexivity | discriminate]. Qed.

(** [str_in] decides [Substring]. *)
Lemma str_in_spec (sub s : string) :
  str_in sub s = true <-> Substring sub s.
Proof.
  induction s as [|c s IH]; cbn [str_in].
  - rewrite prefix_iff. split.
    + intros [after H]. exists "", after. exact H.
    + intros [before [after H]]. symmetry in H.
      apply append_eq_empty in H as [-> H]. cbn in H. exists after. now symmetry.
  - rewrite orb_true_iff, prefix_iff, IH. split.
    + intros [[after H] | [before [after H]]].
      * exists "", after. exact H.
      * exists (String c before), after. cbn. now rewrite H.
    + intros [[|c' before] [after H]].
      * left. exists after. exact H.
      * right. exists before, after. cbn in H. now injection H.
Qed.

Lemma str_in_false (sub s : string) :
  str_in sub s = false <-> ~ Substring sub s.
Proof.
  rewrite <- str_in_spec. destruct (str_in sub s); split; congruence.
Qed.

Lemma mentions_spec (query : string) (kv : string * PolicyRecord) :
  mentions query (fst kv) (snd kv) = true <-> spec_match query kv.
Proof.
  unfold mentions, spec_match. now rewrite orb_true_iff, !str_in_spec.
Qed.

End SubstringSearch.

(** ** The loop of [retrieve_policy_info] is a filter *)

Section Retrieval.

Variable query : string.

Lemma retrieve_loop_filter (its : list (string * PolicyRecord)) (acc : list PolicyRecord) :
  retrieve_loop query its acc = (acc ++ map snd (retrieve_pairs query its))%list.
Proof.
  unfold retrieve_pairs.
  revert acc; induction its as [|[policy_id policy_details] rest IH]; intros acc.
  - cbn. now rewrite app_nil_r.
  - cbn [retrieve_loop filter fst snd].
    destruct (mentions query policy_id policy_details).
    + rewrite IH. cbn [map snd]. now rewrite <- app_assoc.
    + apply IH.
Qed.

Lemma retrieve_policy_info_eq (g : PolicyStore) :
  retrieve_policy_info query g = (Returned (map snd (retrieve_pairs query g)), g).
Proof.
  unfold retrieve_policy_info, bind, items, ret.
  now rewrite retrieve_loop_filter.
Qed.

Lemma run_retrieve :
  run (retrieve_policy_info query)
  = Returned (map snd (retrieve_pairs query MOCK_POLICY_DATA)).
Proof. unfold run. now rewrite retrieve_policy_info_eq. Qed.

Lemma retrieve_pairs_In (g : PolicyStore) (kv : string * PolicyRecord) :
  In kv (retrieve_pairs query g) <-> In kv g /\ spec_match query kv.
Proof.
  unfold retrieve_pairs. now rewrite filter_In, mentions_spec.
Qed.

End Retrieval.

(** ** The reverse lookup on the two records of the store *)

Section ReverseLookup.

Lemma keys_of_jane : keys_of jane_doe MOCK_POLICY_DATA = ["policy_1001"].
Proof. reflexivity. Qed.

Lemma keys_of_john : keys_of john_smith MOCK_POLICY_DATA = ["policy_1002"].
Proof. reflexivity. Qed.

Lemma store_records (p : PolicyRecord) :
  In p (map snd MOCK_POLICY_DATA) <-> p = jane_doe \/ p = john_smith.
Proof. cbn. intuition congruence. Qed.

Lemma store_entries (kv : string * PolicyRecord) :
  In kv MOCK_POLICY_DATA
  <-> kv = ("policy_1001", jane_doe) \/ kv = ("policy_1002", john_smith).
Proof. cbn. intuition congruence. Qed.

(** On an entry of the store the reverse lookup gives back its key, first. *)
Lemma keys_of_entry (k : string) (p : PolicyRecord) :
  In (k, p) MOCK_POLICY_DATA -> keys_of p MOCK_POLICY_DATA = [k].
Proof.
  rewrite store_entries. intros [H | H]; injection H as -> ->; reflexivity.
Qed.

Lemma keys_of_nil_iff (p : PolicyRecord) (g : PolicyStore) :
  keys_of p g = [] <-> forall kv, In kv g -> policy_eqb (snd kv) p = false.
Proof.
  unfold keys_of. induction g as [|kv g IH]; cbn [filter map].
  - split; [intros _ kv [] | reflexivity].
  - destruct (policy_eqb (snd kv) p) eqn:E; cbn [map].
    + split; [discriminate | intros H]. specialize (H kv (or_introl eq_refl)). congruence.
    + rewrite IH. split.
      * intros H kv' [<- | Hin]; [exact E | now apply H].
      * intros H kv' Hin. apply H. now right.
Qed.

End ReverseLookup.

(** ** What [generate_response] computes *)

Section Response.

Variable query : string.

Lemma generate_response_nil (g : PolicyStore) :
  generate_response query [] g = (Returned APOLOGY, g).
Proof. reflexivity. Qed.

Lemma generate_response_cons (p : PolicyRecord) (rest : list PolicyRecord) (g : PolicyStore) :
  generate_response query (p :: rest) g
  = match keys_of p g with
    | [] => (Raised IndexError, g)
    | policy_id :: _ => (Returned (answer query (customer_name p) policy_id p), g)
    end.
Proof.
  unfold generate_response, bind, items, first.
  destruct (keys_of p g); reflexivity.
Qed.

Lemma run_generate_response_entry (k : string) (p : PolicyRecord) (rest : list PolicyRecord) :
  In (k, p) MOCK_POLICY_DATA ->
  run (generate_response query (p :: rest))
  = Returned (answer query (customer_name p) k p).
Proof.
  intros H. unfold run. rewrite generate_response_cons.
  now rewrite (keys_of_entry k p H).
Qed.

Lemma handle_prompt_eq (g : PolicyStore) :
  handle_prompt query g
  = generate_response query (map snd (retrieve_pairs query g)) g.
Proof.
  unfold handle_prompt, bind. now rewrite retrieve_policy_info_eq.
Qed.

(** No template starts like the apology. *)
Lemma answer_not_apology (name policy_id : string) (p : PolicyRecord) :
  answer query name policy_id p <> APOLOGY.
Proof.
  unfold answer, coverage_answer, premium_answer, deductible_answer, fallback_answer, APOLOGY.
  destruct (str_in "coverage" (lower query));
    [| destruct (str_in "premium" (lower query));
       [| destruct (str_in "deductible" (lower query))]];
    cbn [append]; discriminate.
Qed.

End Response.

(** ** Retrieval: which records, in which order *)

Lemma retrieved_head_entry (q : string) (p : PolicyRecord) (rest : list PolicyRecord) :
  run (retrieve_policy_info q) = Returned (p :: rest) ->
  exists k, hd_error (retrieve_pairs q MOCK_POLICY_DATA) = Some (k, p)
            /\ In (k, p) MOCK_POLICY_DATA.
Proof.
  rewrite run_retrieve. intros H0.
  assert (H : map snd (retrieve_pairs q MOCK_POLICY_DATA) = p :: rest) by congruence.
  clear H0.
  destruct (retrieve_pairs q MOCK_POLICY_DATA) as [|[k p'] tl] eqn:E;
    cbn [map snd] in H; [discriminate|].
  injection H as -> _. exists k. split; [reflexivity|].
  assert (Hin : In (k, p) (retrieve_pairs q MOCK_POLICY_DATA)) by (rewrite E; now left).
  now apply retrieve_pairs_In in Hin.
Qed.

Lemma store_get_entry (k : string) (p : PolicyRecord) :
  In (k, p) MOCK_POLICY_DATA <-> store_get k MOCK_POLICY_DATA = Some p.
Proof.
  rewrite store_entries. split.
  - intros [H | H]; injection H as -> ->; reflexivity.
  - cbn [store_get MOCK_POLICY_DATA].
    destruct (String.eqb_spec k "policy_1001") as [-> | _]; cbv beta iota.
    + intros H. injection H as <-. now left.
    + destruct (String.eqb_spec k "policy_1002") as [-> | _]; cbv beta iota;
        [|discriminate].
      intros H. injection H as <-. now right.
Qed.

Example retrieve_identifier_is_case_sensitive :
  run (retrieve_policy_info "premium of POLICY_1001") = Returned [].
Proof. reflexivity. Qed.

Example retrieve_name_ignores_case :
  run (retrieve_policy_info "tell me about JANE doe") = Returned [jane_doe].
Proof. reflexivity. Qed.

Example retrieve_keeps_store_order :
  run (retrieve_policy_info "john smith, then policy_1001")
  = Returned [jane_doe; john_smith].
Proof. reflexivity. Qed.

Example retrieve_nonexistent :
  run (retrieve_policy_info "nonexistent") = Returned [].
Proof. reflexivity. Qed.

(** C1. [retrieve_policy_info q] returns the records of the store, in the
    store's order, whose identifier is a substring of [q] or whose
    lower-cased customer name is a substring of the lower-cased [q]: it is the
    store filtered by a test that decides exactly that condition.  When [q]
    contains "policy_1001" the first record returned is the one stored under
    policy_1001; the empty query, and any query that meets the condition for
    no record, give the empty list. *)
Theorem C1_retrieve_matching_records_in_order (q : string) :
  (exists keep : string * PolicyRecord -> bool,
      (forall kv, keep kv = true <-> spec_match q kv)
      /\ run (retrieve_policy_info q)
         = Returned (map snd (filter keep MOCK_POLICY_DATA)))
  /\ (Substring "policy_1001" q ->
      exists rest,
        run (retrieve_policy_info q) = Returned (jane_doe :: rest)
        /\ store_get "policy_1001" MOCK_POLICY_DATA = Some jane_doe
        /\ keys_of jane_doe MOCK_POLICY_DATA = ["policy_1001"])
  /\ run (retrieve_policy_info "") = Returned []
  /\ ((forall kv, In kv MOCK_POLICY_DATA -> ~ spec_match q kv) ->
      run (retrieve_policy_info q) = Returned []).
Proof.
  split; [|split; [|split]].
  - exists (fun kv => mentions q (fst kv) (snd kv)). split.
    + intros kv. apply mentions_spec.
    + apply run_retrieve.
  - intros Hsub. rewrite run_retrieve.
    assert (Hm : mentions q "policy_1001" jane_doe = true).
    { unfold mentions. apply orb_true_iff. left. now apply str_in_spec. }
    unfold retrieve_pairs, MOCK_POLICY_DATA. cbn [filter fst snd]. rewrite Hm.
    cbn [map snd]. eexists. repeat split.
  - reflexivity.
  - intros Hnone. rewrite run_retrieve.
    destruct (retrieve_pairs q MOCK_POLICY_DATA) as [|kv tl] eqn:E; [reflexivity|].
    assert (Hin : In kv (retrieve_pairs q MOCK_POLICY_DATA)) by (rewrite E; now left).
    apply retrieve_pairs_In in Hin as [Hin Hm]. now destruct (Hnone kv Hin).
Qed.

(** C2. For every input string the per-turn pipeline, [retrieve_policy_info]
    followed by [generate_response], returns a string and raises nothing; the
    reverse lookup of the identifier finds a key whenever its argument is the
    first record of a retrieval result. *)
Theorem C2_pipeline_returns_a_string (q : string) :
  (exists text, run (handle_prompt q) = Returned text)
  /\ (forall p rest,
        run (retrieve_policy_info q) = Returned (p :: rest) ->
        exists k ks, keys_of p MOCK_POLICY_DATA = k :: ks).
Proof.
  split.
  - unfold run. rewrite handle_prompt_eq.
    destruct (map snd (retrieve_pairs q MOCK_POLICY_DATA)) as [|p rest] eqn:E.
    + eexists. reflexivity.
    + destruct (retrieved_head_entry q p rest) as [k [_ Hin]].
      { rewrite run_retrieve. now rewrite E. }
      exists (answer q (customer_name p) k p).
      now apply run_generate_response_entry.
  - intros p rest H. destruct (retrieved_head_entry q p rest H) as [k [_ Hin]].
    exists k, []. now apply keys_of_entry.
Qed.

(** ** The keyword cascade *)

Lemma answer_coverage (q name k : string) (p : PolicyRecord) :
  Substring "coverage" (lower q) ->
  answer q name k p = coverage_answer name k p.
Proof.
  intros H. apply str_in_spec in H. unfold answer. now rewrite H.
Qed.

Lemma answer_premium (q name k : string) (p : PolicyRecord) :
  ~ Substring "coverage" (lower q) -> Substring "premium" (lower q) ->
  answer q name k p = premium_answer name k p.
Proof.
  intros Hc H. apply str_in_false in Hc. apply str_in_spec in H.
  unfold answer. now rewrite Hc, H.
Qed.

Lemma answer_deductible (q name k : string) (p : PolicyRecord) :
  ~ Substring "coverage" (lower q) -> ~ Substring "premium" (lower q) ->
  Substring "deductible" (lower q) ->
  answer q name k p = deductible_answer name k p.
Proof.
  intros Hc Hp H. apply str_in_false in Hc, Hp. apply str_in_spec in H.
  unfold answer. now rewrite Hc, Hp, H.
Qed.

Lemma answer_fallback (q name k : string) (p : PolicyRecord) :
  ~ Substring "coverage" (lower q) -> ~ Substring "premium" (lower q) ->
  ~ Substring "deductible" (lower q) ->
  answer q name k p = fallback_answer name k p.
Proof.
  intros Hc Hp Hd. apply str_in_false in Hc, Hp, Hd.
  unfold answer. now rewrite Hc, Hp, Hd.
Qed.

Lemma coverage_is_not_premium (name k : string) (p : PolicyRecord) :
  coverage_answer name k p <> premium_answer name k p.
Proof. unfold coverage_answer, premium_answer. cbn [append]. discriminate. Qed.

(** C3, as the code has it.  When the first record of a non-empty [matches]
    is stored in the store under [k], [generate_response] tests the
    lower-cased query for "coverage", then "premium", then "deductible", and
    answers with the template of the first keyword found, or with the fallback
    when none is; a query whose lower-casing contains "coverage" gets the
    coverage listing, never the premium sentence, whatever else it contains. *)
Theorem C3_keyword_priority
  (q k : string) (p : PolicyRecord) (rest : list PolicyRecord)
  (Hstored : In (k, p) MOCK_POLICY_DATA) :
  (Substring "coverage" (lower q) ->
     run (generate_response q (p :: rest))
     = Returned (coverage_answer (customer_name p) k p)
     /\ run (generate_response q (p :: rest))
        <> Returned (premium_answer (customer_name p) k p))
  /\ (~ Substring "coverage" (lower q) -> Substring "premium" (lower q) ->
     run (generate_response q (p :: rest))
     = Returned (premium_answer (customer_name p) k p))
  /\ (~ Substring "coverage" (lower q) -> ~ Substring "premium" (lower q) ->
      Substring "deductible" (lower q) ->
     run (generate_response q (p :: rest))
     = Returned (deductible_answer (customer_name p) k p))
  /\ (~ Substring "coverage" (lower q) -> ~ Substring "premium" (lower q) ->
      ~ Substring "deductible" (lower q) ->
     run (generate_response q (p :: rest))
     = Returned (fallback_answer (customer_name p) k p)).
Proof.
  rewrite (run_generate_response_entry q k p rest Hstored).
  split; [|split; [|split]].
  - intros H. rewrite (answer_coverage _ _ _ _ H). split; [reflexivity|].
    intros E. apply (coverage_is_not_premium (customer_name p) k p). congruence.
  - intros Hc H. now rewrite answer_premium.
  - intros Hc Hp H. now rewrite answer_deductible.
  - intros Hc Hp Hd. now rewrite answer_fallback.
Qed.

Lemma C3_keyword_priority_witness :
  In ("policy_1001", jane_doe) MOCK_POLICY_DATA
  /\ Substring "premium" (lower "What PREMIUM covers Coverage")
  /\ run (generate_response "What PREMIUM covers Coverage" [jane_doe; john_smith])
     = Returned (coverage_answer "Jane Doe" "policy_1001" jane_doe).
Proof.
  assert (Hstored : In ("policy_1001", jane_doe) MOCK_POLICY_DATA) by (left; reflexivity).
  split; [exact Hstored|].
  split; [apply str_in_spec; reflexivity|].
  apply (C3_keyword_priority "What PREMIUM covers Coverage" "policy_1001" jane_doe
           [john_smith] Hstored).
  apply str_in_spec. reflexivity.
Defined.

(** C3 as stated fails: the query "coverage" with a first record that the
    store does not hold gets no coverage listing, the reverse lookup raises
    [IndexError] before any keyword is tested. *)
Lemma C3_counterexample :
  Substring "coverage" (lower "coverage")
  /\ [stranger] <> []
  /\ run (generate_response "coverage" [stranger]) = Raised IndexError.
Proof.
  split; [apply str_in_spec; reflexivity|].
  split; [discriminate | reflexivity].
Qed.

(** C4. [generate_response q []] is the fixed apology, whatever [q] is; the
    apology asks to check the policy number or customer name; it is returned
    as an ordinary string, only for the empty context, and so a turn answers
    with it exactly when retrieval found nothing; a turn never raises. *)
Theorem C4_apology_on_no_match (q : string) :
  run (generate_response q []) = Returned APOLOGY
  /\ Substring "Please check the policy number or customer name." APOLOGY
  /\ (forall context,
        run (generate_response q context) = Returned APOLOGY -> context = [])
  /\ (run (handle_prompt q) = Returned APOLOGY
      <-> run (retrieve_policy_info q) = Returned [])
  /\ (forall e, run (handle_prompt q) <> Raised e).
Proof.
  assert (Honly : forall context,
             run (generate_response q context) = Returned APOLOGY -> context = []).
  { intros [|p rest]; [reflexivity|]. unfold run.
    rewrite generate_response_cons.
    destruct (keys_of p MOCK_POLICY_DATA) as [|k ks]; cbn [fst]; [discriminate|].
    intros H. exfalso.
    apply (answer_not_apology q (customer_name p) k p). congruence. }
  split; [reflexivity|].
  split; [apply str_in_spec; reflexivity|].
  split; [exact Honly|].
  split.
  - unfold run at 1. rewrite handle_prompt_eq. rewrite run_retrieve. split.
    + intros H. apply Honly in H. now rewrite H.
    + intros H.
      assert (E : map snd (retrieve_pairs q MOCK_POLICY_DATA) = []) by congruence.
      now rewrite E.
  - intros e. unfold run. rewrite handle_prompt_eq.
    destruct (map snd (retrieve_pairs q MOCK_POLICY_DATA)) as [|p rest] eqn:E;
      [discriminate|].
    destruct (retrieved_head_entry q p rest) as [k [_ Hin]].
    { rewrite run_retrieve. now rewrite E. }
    fold (run (generate_response q (p :: rest))).
    rewrite (run_generate_response_entry q k p rest Hin). discriminate.
Qed.

(** ** Only the first match is used *)

Lemma generate_response_first_only
  (q : string) (p : PolicyRecord) (others : list PolicyRecord) (g : PolicyStore) :
  generate_response q (p :: others) g = generate_response q [p] g.
Proof. now rewrite !generate_response_cons. Qed.

(** C5. For a non-empty [matches] made of records of the store,
    [generate_response q matches] is [generate_response q [matches[0]]]: the
    matches after the first are not looked at. *)
Theorem C5_first_match_only
  (q : string) (matches : list PolicyRecord)
  (Hnonempty : matches <> [])
  (Hstore : Forall (fun r => In r (map snd MOCK_POLICY_DATA)) matches) :
  exists first_match,
    hd_error matches = Some first_match
    /\ run (generate_response q matches) = run (generate_response q [first_match]).
Proof.
  destruct matches as [|p others]; [congruence|].
  exists p. split; [reflexivity|].
  unfold run. now rewrite generate_response_first_only.
Qed.

Lemma C5_first_match_only_witness :
  exists first_match,
    hd_error [john_smith; jane_doe] = Some first_match
    /\ run (generate_response "premium of jane doe, policy_1002" [john_smith; jane_doe])
       = run (generate_response "premium of jane doe, policy_1002" [first_match]).
Proof.
  apply (C5_first_match_only "premium of jane doe, policy_1002" [john_smith; jane_doe]).
  - discriminate.
  - apply Forall_cons; [right; left; reflexivity|].
    apply Forall_cons; [left; reflexivity | apply Forall_nil].
Defined.

(** ** The reverse lookup against carried identifiers *)

(** C6. When retrieval returns a non-empty list, its first record [p] is
    stored under exactly one key [k], the reverse lookup in
    [generate_response] yields that [k], and the answer is the template filled
    with [k]; the whole turn equals the variant that carries
    [(identifier, record)] pairs from retrieval to the answer. *)
Theorem C6_reverse_lookup_recovers_identifier (q : string) :
  (forall p rest,
      run (retrieve_policy_info q) = Returned (p :: rest) ->
      exists k,
        hd_error (retrieve_pairs q MOCK_POLICY_DATA) = Some (k, p)
        /\ store_get k MOCK_POLICY_DATA = Some p
        /\ (forall k', store_get k' MOCK_POLICY_DATA = Some p -> k' = k)
        /\ keys_of p MOCK_POLICY_DATA = [k]
        /\ run (generate_response q (p :: rest))
           = Returned (answer q (customer_name p) k p))
  /\ run (handle_prompt q)
     = Returned (respond_pairs q (retrieve_pairs q MOCK_POLICY_DATA)).
Proof.
  split.
  - intros p rest H. destruct (retrieved_head_entry q p rest H) as [k [Hhd Hin]].
    exists k. split; [exact Hhd|].
    split; [now apply store_get_entry|].
    split.
    + intros k' Hk'. apply store_get_entry, keys_of_entry in Hk'.
      rewrite (keys_of_entry k p Hin) in Hk'. congruence.
    + split; [now apply keys_of_entry | now apply run_generate_response_entry].
  - unfold run. rewrite handle_prompt_eq.
    destruct (retrieve_pairs q MOCK_POLICY_DATA) as [|[k p] tl] eqn:E; [reflexivity|].
    cbn [map snd respond_pairs].
    apply (run_generate_response_entry q k p (map snd tl)).
    assert (Hin : In (k, p) (retrieve_pairs q MOCK_POLICY_DATA)) by (rewrite E; now left).
    now apply retrieve_pairs_In in Hin.
Qed.

(** ** The store is only read *)

(** C7. From any state [g] of the module-level dictionary,
    [retrieve_policy_info], [generate_response] and a whole turn leave [g] as
    it was, and a second [retrieve_policy_info q] right after the first
    returns the same list. *)
Theorem C7_store_unchanged_and_retrieve_repeatable (q : string) (g : PolicyStore) :
  snd (retrieve_policy_info q g) = g
  /\ (forall context, snd (generate_response q context g) = g)
  /\ snd (handle_prompt q g) = g
  /\ fst (retrieve_policy_info q (snd (retrieve_policy_info q g)))
     = fst (retrieve_policy_info q g)
  /\ snd (retrieve_policy_info q (snd (retrieve_policy_info q g))) = g
  /\ (x <- retrieve_policy_info q ;; y <- retrieve_policy_info q ;; ret (x, y)) g
     = (x <- retrieve_policy_info q ;; ret (x, x)) g.
Proof.
  assert (Hgen : forall context, snd (generate_response q context g) = g).
  { intros [|p rest]; [reflexivity|]. rewrite generate_response_cons.
    now destruct (keys_of p g). }
  split; [now rewrite retrieve_policy_info_eq|].
  split; [exact Hgen|].
  split; [rewrite handle_prompt_eq; apply Hgen|].
  unfold bind, ret.
  repeat (rewrite retrieve_policy_info_eq; cbn [fst snd]; cbv beta iota).
  repeat split.
Qed.

(** ** The two worked answers *)

(** C8. For "What is the coverage for Jane Doe?" and Jane Doe's record the
    answer is the header naming Jane Doe and policy_1001, an empty line, and
    the three coverage entries in the record's order, each on a line
    "- <Category In Title Case>: <value>"; so it contains every category
    name, every configured value, the customer name and the identifier. *)
Theorem C8_coverage_listing_for_jane :
  exists text,
    run (generate_response "What is the coverage for Jane Doe?" [jane_doe])
    = Returned text
    /\ text
       = "Hello, the policy details for Jane Doe (Policy ID: policy_1001) indicate the following coverage:"
         ++ newline ++ newline
         ++ join newline [ "- Collision: Up to $50,000";
                           "- Comprehensive: Up to $25,000";
                           "- Roadside Assistance: Included" ]
    /\ map coverage_line (coverage jane_doe)
       = [ "- " ++ "Collision" ++ ": " ++ "Up to $50,000";
           "- " ++ "Comprehensive" ++ ": " ++ "Up to $25,000";
           "- " ++ "Roadside Assistance" ++ ": " ++ "Included" ]
    /\ Forall (fun part => Substring part text)
         [ "Collision"; "Comprehensive"; "Roadside Assistance";
           "Up to $50,000"; "Up to $25,000"; "Included";
           "Jane Doe"; "policy_1001" ].
Proof.
  eexists. split; [reflexivity|]. split; [reflexivity|]. split; [reflexivity|].
  repeat (apply Forall_cons; [apply str_in_spec; vm_compute; reflexivity|]).
  apply Forall_nil.
Qed.

(** C9. For "premium for policy_1002" and John Smith's record the answer is
    the one premium sentence: it contains "$85/month", "policy_1002" and
    "John Smith" verbatim, has no line break, and is what the premium branch
    builds. *)
Theorem C9_premium_sentence_for_john :
  exists text,
    run (generate_response "premium for policy_1002" [john_smith]) = Returned text
    /\ text
       = "The monthly premium for John Smith's policy (Policy ID: policy_1002) is $85/month."
    /\ text = premium_answer "John Smith" "policy_1002" john_smith
    /\ Forall (fun part => Substring part text)
         [ "$85/month"; "policy_1002"; "John Smith" ]
    /\ ~ Substring newline text.
Proof.
  eexists. split; [reflexivity|]. split; [reflexivity|]. split; [reflexivity|].
  split.
  - repeat (apply Forall_cons; [apply str_in_spec; vm_compute; reflexivity|]).
    apply Forall_nil.
  - apply str_in_false. vm_compute. reflexivity.
Qed.

(** ** [generate_response] outside the results of retrieval *)

Lemma stranger_not_stored :
  forall kv, In kv MOCK_POLICY_DATA -> policy_eqb (snd kv) stranger = false.
Proof. apply keys_of_nil_iff. reflexivity. Qed.

(** C10. [generate_response] alone is partial: there are a query and a
    non-empty context whose first record equals no record of the store, for
    which the reverse lookup is empty and indexing it raises [IndexError];
    this happens for every such context.  When the first record is one of the
    store's, as it is in every result of [retrieve_policy_info], a string is
    returned. *)
Theorem C10_generate_response_partial :
  (exists q p rest,
      (forall kv, In kv MOCK_POLICY_DATA -> policy_eqb (snd kv) p = false)
      /\ keys_of p MOCK_POLICY_DATA = []
      /\ run (generate_response q (p :: rest)) = Raised IndexError)
  /\ (forall q p rest,
        (forall kv, In kv MOCK_POLICY_DATA -> policy_eqb (snd kv) p = false) ->
        run (generate_response q (p :: rest)) = Raised IndexError)
  /\ (forall q p rest,
        In p (map snd MOCK_POLICY_DATA) ->
        exists text, run (generate_response q (p :: rest)) = Returned text)
  /\ (forall q p rest,
        run (retrieve_policy_info q) = Returned (p :: rest) ->
        In p (map snd MOCK_POLICY_DATA)).
Proof.
  split; [|split; [|split]].
  - exists "What is the coverage?", stranger, [jane_doe].
    split; [exact stranger_not_stored|]. split; reflexivity.
  - intros q p rest H. apply keys_of_nil_iff in H.
    unfold run. rewrite generate_response_cons. now rewrite H.
  - intros q p rest H. apply in_map_iff in H as [[k p'] [E Hin]].
    cbn [snd] in E. subst p'. eexists.
    now apply (run_generate_response_entry q k p rest).
  - intros q p rest H. destruct (retrieved_head_entry q p rest H) as [k [_ Hin]].
    apply in_map_iff. now exists (k, p).
Qed.

(** ** More on strings: case and substrings *)

Section CaseAndSubstrings.


Lemma lower_char_idempotent (c : ascii) : lower_char (lower_char c) = lower_char c.
Proof. destruct c as [[] [] [] [] [] [] [] []]; reflexivity. Qed.

Lemma lower_idempotent (s : string) : lower (lower s) = lower s.
Proof.
  induction s as [|c s IH]; cbn; [reflexivity|].
  now rewrite lower_char_idempotent, IH.
Qed.

Lemma Substring_refl (s : string) : Substring s s.
Proof.
  exists "", "". cbn. induction s as [|c s IH]; cbn; [reflexivity | now rewrite <- IH].
Qed.



Lemma Substring_middle (before s after : string) :
  Substring s (before ++ s ++ after).
Proof. now exists before, after. Qed.

End CaseAndSubstrings.

(** ** Retrieval from any store *)

Lemma retrieved_iff (g : PolicyStore) (q : string) (p : PolicyRecord) :
  In p (map snd (retrieve_pairs q g))
  <-> exists k, In (k, p) g /\ spec_match q (k, p).
Proof.
  rewrite in_map_iff. split.
  - intros [[k p'] [E H]]. cbn [snd] in E. subst p'.
    apply retrieve_pairs_In in H. now exists k.
  - intros [k H]. exists (k, p). split; [reflexivity|]. now apply retrieve_pairs_In.
Qed.






Lemma Substring_of_empty (s : string) : Substring s "" <-> s = "".
Proof.
  split.
  - intros [before [after H]]. symmetry in H.
    apply append_eq_empty in H as [_ H]. now apply append_eq_empty in H.
  - intros ->. apply Substring_refl.
Qed.

Lemma lower_eq_empty (s : string) : lower s = "" <-> s = "".
Proof. destruct s; cbn; split; congruence. Qed.

Lemma Substring_empty (s : string) : Substring "" s.
Proof. now exists "", s. Qed.

(** X3. The empty string is a substring of every string, and only the empty
    string is a substring of the empty string.  So, whatever the store holds,
    the empty query retrieves exactly the records stored under an empty
    identifier or with an empty customer name, and such a record is retrieved
    by every query. *)
Theorem retrieve_and_empty_strings (g : PolicyStore) (p : PolicyRecord) :
  (exists found,
      fst (retrieve_policy_info "" g) = Returned found
      /\ (In p found
          <-> exists k, In (k, p) g /\ (k = "" \/ customer_name p = "")))
  /\ (forall q, exists found,
        fst (retrieve_policy_info q g) = Returned found
        /\ ((exists k, In (k, p) g /\ (k = "" \/ customer_name p = ""))
            -> In p found)).
Proof.
  assert (Hblank : forall q,
             (exists k, In (k, p) g /\ (k = "" \/ customer_name p = ""))
             -> In p (map snd (retrieve_pairs q g))).
  { intros q [k [Hin H]]. apply retrieved_iff. exists k. split; [exact Hin|].
    destruct H as [-> | H]; [left | right]; cbn [fst snd].
    - apply Substring_empty.
    - rewrite H. apply Substring_empty. }
  split.
  - rewrite retrieve_policy_info_eq. cbn [fst]. eexists. split; [reflexivity|].
    split; [|apply Hblank].
    rewrite retrieved_iff. intros [k [Hin H]]. exists k. split; [exact Hin|].
    destruct H as [H | H]; cbn [fst snd lower] in H; apply Substring_of_empty in H.
    + now left.
    + right. now apply lower_eq_empty.
  - intros q. rewrite retrieve_policy_info_eq. cbn [fst]. eexists.
    split; [reflexivity | apply Hblank].
Qed.

(** ** The answer on any store *)

Lemma answer_names (q name k : string) (p : PolicyRecord) :
  Substring name (answer q name k p) /\ Substring k (answer q name k p).
Proof.
  unfold answer, coverage_answer, premium_answer, deductible_answer, fallback_answer.
  destruct (str_in "coverage" (lower q));
    [| destruct (str_in "premium" (lower q));
       [| destruct (str_in "deductible" (lower q))]];
    (split; [apply Substring_middle|]);
    match goal with
    | |- Substring k (?a ++ name ++ ?b ++ k ++ ?c) =>
        exists (a ++ name ++ b), c; now rewrite !append_assoc
    end.
Qed.

Lemma keys_of_In (k : string) (p : PolicyRecord) (g : PolicyStore) :
  In k (keys_of p g) <-> exists v, In (k, v) g /\ policy_eqb v p = true.
Proof.
  unfold keys_of. rewrite in_map_iff. split.
  - intros [[k' v] [E H]]. cbn [fst] in E. subst k'.
    apply filter_In in H. now exists v.
  - intros [v [H E]]. exists (k, v). split; [reflexivity|]. now apply filter_In.
Qed.

(** X4. Whatever the store holds and whichever template is chosen, an answer
    that [generate_response] returns for a non-empty context contains the
    customer name of the first record and an identifier under which the store
    holds an equal record. *)
Theorem answer_names_customer_and_policy
  (g : PolicyStore) (q : string) (p : PolicyRecord) (rest : list PolicyRecord)
  (text : string)
  (Hreturned : fst (generate_response q (p :: rest) g) = Returned text) :
  Substring (customer_name p) text
  /\ exists k v, In (k, v) g /\ policy_eqb v p = true /\ Substring k text.
Proof.
  rewrite generate_response_cons in Hreturned.
  destruct (keys_of p g) as [|k ks] eqn:E; cbn [fst] in Hreturned; [discriminate|].
  assert (Htext : text = answer q (customer_name p) k p) by congruence. subst text.
  destruct (answer_names q (customer_name p) k p) as [Hname Hk].
  split; [exact Hname|].
  assert (Hin : In k (keys_of p g)) by (rewrite E; now left).
  apply keys_of_In in Hin as [v [Hv Heq]]. now exists k, v.
Qed.

Lemma answer_names_customer_and_policy_witness :
  Substring (customer_name john_smith)
    "The deductible for John Smith's policy (Policy ID: policy_1002) is $1,000."
  /\ exists k v,
       In (k, v) MOCK_POLICY_DATA /\ policy_eqb v john_smith = true
       /\ Substring k
            "The deductible for John Smith's policy (Policy ID: policy_1002) is $1,000.".
Proof.
  apply (answer_names_customer_and_policy MOCK_POLICY_DATA "my DEDUCTIBLE?"
           john_smith [jane_doe]).
  reflexivity.
Defined.

(** X5. [generate_response] looks at the query only through its lower-casing:
    two queries that differ in letter case alone get the same result, from any
    store and for any context. *)
Theorem response_ignores_case_of_query
  (g : PolicyStore) (q q' : string) (context : list PolicyRecord)
  (Hcase : lower q = lower q') :
  generate_response q context g = generate_response q' context g.
Proof.
  destruct context as [|p rest]; [reflexivity|].
  rewrite !generate_response_cons. unfold answer. now rewrite Hcase.
Qed.

Lemma response_ignores_case_of_query_witness :
  generate_response "What is my PREMIUM?" [jane_doe] MOCK_POLICY_DATA
  = generate_response "what is my premium?" [jane_doe] MOCK_POLICY_DATA.
Proof.
  apply (response_ignores_case_of_query MOCK_POLICY_DATA
           "What is my PREMIUM?" "what is my premium?" [jane_doe]).
  reflexivity.
Defined.

(** ** The coverage listing *)






(** ** [==] on records, and the reverse lookup on any store *)

Lemma dict_get_In (d : dict) (k v : string) :
  NoDup (map fst d) -> In (k, v) d -> dict_get k d = Some v.
Proof.
  induction d as [|[k' v'] d IH]; cbn [map fst dict_get In]; [intros _ []|].
  intros Hnd [E | Hin].
  - injection E as -> ->. now rewrite String.eqb_refl.
  - inversion Hnd as [|? ? Hnotin Hnd']; subst.
    destruct (String.eqb_spec k k') as [-> | _].
    + exfalso. apply Hnotin. apply in_map_iff. now exists (k', v).
    + now apply IH.
Qed.

Lemma dict_eqb_refl (d : dict) : NoDup (map fst d) -> dict_eqb d d = true.
Proof.
  intros Hnd. unfold dict_eqb. rewrite Nat.eqb_refl. cbn [andb].
  apply forallb_forall. intros [k v] Hin. cbn [fst snd].
  rewrite (dict_get_In d k v Hnd Hin). apply String.eqb_refl.
Qed.

Lemma policy_eqb_refl (p : PolicyRecord) :
  NoDup (map fst (coverage p)) -> policy_eqb p p = true.
Proof.
  intros Hnd. unfold policy_eqb.
  now rewrite !String.eqb_refl, (dict_eqb_refl _ Hnd).
Qed.

Lemma keys_of_entry_any_store (g : PolicyStore) (k : string) (p : PolicyRecord) :
  unique_coverage_keys g -> In (k, p) g ->
  exists k' ks, keys_of p g = k' :: ks.
Proof.
  intros Hwf Hin.
  assert (H : In k (keys_of p g)).
  { apply keys_of_In. exists p. split; [exact Hin|].
    apply policy_eqb_refl. exact (Hwf (k, p) Hin). }
  destruct (keys_of p g) as [|k' ks]; [destruct H | now exists k', ks].
Qed.

Lemma keys_of_entry_distinct (g : PolicyStore) (k : string) (p : PolicyRecord) :
  unique_coverage_keys g -> distinct_records g -> In (k, p) g ->
  exists ks, keys_of p g = k :: ks.
Proof.
  intros Hwf Hdist Hin.
  destruct (keys_of_entry_any_store g k p Hwf Hin) as [k' [ks E]].
  exists ks. rewrite E. f_equal.
  assert (H : In k' (keys_of p g)) by (rewrite E; now left).
  apply keys_of_In in H as [v [Hv Heq]].
  exact (Hdist k' v k p Hv Hin Heq).
Qed.

Lemma retrieve_pairs_head (g : PolicyStore) (q : string)
      (kv : string * PolicyRecord) (tl : list (string * PolicyRecord)) :
  retrieve_pairs q g = kv :: tl -> In kv g.
Proof.
  intros E.
  assert (H : In kv (retrieve_pairs q g)) by (rewrite E; now left).
  now apply retrieve_pairs_In in H.
Qed.

Lemma handle_prompt_returns (g : PolicyStore) (q : string) :
  unique_coverage_keys g -> exists text, handle_prompt q g = (Returned text, g).
Proof.
  intros Hwf. rewrite handle_prompt_eq.
  destruct (retrieve_pairs q g) as [|[k p] tl] eqn:E; cbn [map snd].
  - eexists. reflexivity.
  - rewrite generate_response_cons.
    destruct (keys_of_entry_any_store g k p Hwf (retrieve_pairs_head g q _ _ E))
      as [k' [ks ->]].
    eexists. reflexivity.
Qed.

Lemma shipped_store_unique_coverage_keys : unique_coverage_keys MOCK_POLICY_DATA.
Proof.
  intros kv [<- | [<- | []]]; cbn;
    repeat (constructor; [cbn; intuition discriminate|]); constructor.
Qed.

Lemma shipped_store_distinct_records : distinct_records MOCK_POLICY_DATA.
Proof.
  intros k1 v1 k2 v2 [H1 | [H1 | []]] [H2 | [H2 | []]];
    injection H1 as <- <-; injection H2 as <- <-;
    (reflexivity || (vm_compute; discriminate)).
Qed.

(** X7. A turn returns a string, raises nothing and leaves the dictionary as it
    was from every store whose coverage dictionaries have each key once: the
    record that retrieval puts first is [==] to itself, so the reverse lookup
    is never empty. *)
Theorem turn_returns_on_any_store
  (g : PolicyStore) (q : string) (Hkeys : unique_coverage_keys g) :
  exists text, handle_prompt q g = (Returned text, g).
Proof. now apply handle_prompt_returns. Qed.

Lemma turn_returns_on_any_store_witness :
  exists text,
    handle_prompt "premium for policy_1002" MOCK_POLICY_DATA
    = (Returned text, MOCK_POLICY_DATA).
Proof.
  apply (turn_returns_on_any_store MOCK_POLICY_DATA "premium for policy_1002").
  exact shipped_store_unique_coverage_keys.
Defined.

(** X8. From every store in which no two entries hold [==] records, the reverse
    lookup gives the identifier of the entry that retrieval put first, so a
    turn equals the variant that carries the identifier with the record. *)
Theorem turn_uses_identifier_of_first_match
  (g : PolicyStore) (q : string)
  (Hkeys : unique_coverage_keys g) (Hdistinct : distinct_records g) :
  fst (handle_prompt q g) = Returned (respond_pairs q (retrieve_pairs q g)).
Proof.
  rewrite handle_prompt_eq.
  destruct (retrieve_pairs q g) as [|[k p] tl] eqn:E; cbn [map snd respond_pairs];
    [reflexivity|].
  rewrite generate_response_cons.
  destruct (keys_of_entry_distinct g k p Hkeys Hdistinct (retrieve_pairs_head g q _ _ E))
    as [ks ->].
  reflexivity.
Qed.

Lemma turn_uses_identifier_of_first_match_witness :
  fst (handle_prompt "deductible, john smith" MOCK_POLICY_DATA)
  = Returned (respond_pairs "deductible, john smith"
                (retrieve_pairs "deductible, john smith" MOCK_POLICY_DATA)).
Proof.
  apply (turn_uses_identifier_of_first_match MOCK_POLICY_DATA "deductible, john smith").
  - exact shipped_store_unique_coverage_keys.
  - exact shipped_store_distinct_records.
Defined.

(** Without that condition the identifier can be the wrong one: when two
    identifiers hold equal records, a query naming the second is answered
    with the first. *)
Example twin_records_answer_with_first_identifier :
  fst (handle_prompt "premium for policy_2"
         [ ("policy_1", stranger); ("policy_2", stranger) ])
  = Returned "The monthly premium for Alex Roe's policy (Policy ID: policy_1) is $10/month.".
Proof. reflexivity. Qed.

(** ** One run of the script *)



Lemma script_without_prompt (chat_input : option string) (s : session) :
  truthy chat_input = None ->
  script chat_input s
  = (Returned tt, {| store := store s; messages := Some (transcript s) |},
     ([Title TITLE; Markdown INTRO; Markdown "---"]
        ++ map show (transcript s) ++ [ChatInput PLACEHOLDER])%list).
Proof. intros H. unfold script. now rewrite H. Qed.

Lemma script_with_prompt (chat_input : option string) (s : session)
      (prompt response : string) :
  truthy chat_input = Some prompt ->
  handle_prompt prompt (store s) = (Returned response, store s) ->
  script chat_input s
  = (Returned tt,
     {| store := store s;
        messages := Some (transcript s
                            ++ [ {| role := "user"; content := prompt |};
                                 {| role := "assistant"; content := response |} ])%list |},
     ([Title TITLE; Markdown INTRO; Markdown "---"]
        ++ map show (transcript s)
        ++ [ ChatInput PLACEHOLDER;
             ChatMessage "user" [Markdown prompt];
             ChatMessage "assistant" [Spinner "Thinking..." [Markdown response]] ])%list).
Proof.
  intros Hp Hr. unfold script. rewrite Hp, Hr. fold (transcript s).
  rewrite <- !app_assoc. reflexivity.
Qed.

(** X9. A run of the script never raises and never changes the dictionary.
    Without a prompt ([st.chat_input] gave [None] or the empty string) it
    leaves the earlier messages as they were; with a prompt it appends exactly
    two messages after them, the user's prompt and then the assistant's answer
    to that prompt. *)
Theorem script_run_appends_one_exchange
  (chat_input : option string) (s : session)
  (Hkeys : unique_coverage_keys (store s)) :
  exists s' page,
    script chat_input s = (Returned tt, s', page)
    /\ store s' = store s
    /\ (truthy chat_input = None -> messages s' = Some (transcript s))
    /\ (forall prompt,
          truthy chat_input = Some prompt ->
          exists response,
            fst (handle_prompt prompt (store s)) = Returned response
            /\ messages s'
               = Some (transcript s
                         ++ [ {| role := "user"; content := prompt |};
                              {| role := "assistant"; content := response |} ])%list).
Proof.
  destruct (truthy chat_input) as [prompt|] eqn:Hp.
  - destruct (handle_prompt_returns (store s) prompt Hkeys) as [response Hr].
    do 2 eexists. split; [exact (script_with_prompt _ _ _ _ Hp Hr)|].
    split; [reflexivity|]. split; [discriminate|].
    intros prompt' E. injection E as <-. exists response.
    split; [now rewrite Hr | reflexivity].
  - do 2 eexists. split; [exact (script_without_prompt _ _ Hp)|].
    split; [reflexivity|]. split; [reflexivity | discriminate].
Qed.

Lemma script_run_appends_one_exchange_witness :
  exists s' page,
    script (Some "premium for policy_1002") new_session = (Returned tt, s', page)
    /\ store s' = store new_session
    /\ (truthy (Some "premium for policy_1002") = None ->
        messages s' = Some (transcript new_session))
    /\ (forall prompt,
          truthy (Some "premium for policy_1002") = Some prompt ->
          exists response,
            fst (handle_prompt prompt (store new_session)) = Returned response
            /\ messages s'
               = Some (transcript new_session
                         ++ [ {| role := "user"; content := prompt |};
                              {| role := "assistant"; content := response |} ])%list).
Proof.
  apply (script_run_appends_one_exchange (Some "premium for policy_1002") new_session).
  exact shipped_store_unique_coverage_keys.
Defined.



(** ** A whole session *)

Lemma handle_prompt_reply (prompt : string) :
  handle_prompt prompt MOCK_POLICY_DATA = (Returned (reply prompt), MOCK_POLICY_DATA).
Proof.
  destruct (handle_prompt_returns MOCK_POLICY_DATA prompt
              shipped_store_unique_coverage_keys) as [text H].
  unfold reply, run. now rewrite H.
Qed.

Lemma script_shipped (chat_input : option string) (s : session) :
  store s = MOCK_POLICY_DATA ->
  exists page,
    script chat_input s
    = (Returned tt,
       {| store := MOCK_POLICY_DATA;
          messages := Some (transcript s ++ flat_map exchange (prompts_of [chat_input]))%list |},
       page).
Proof.
  intros Hs. unfold prompts_of. cbn [flat_map]. rewrite app_nil_r.
  destruct (truthy chat_input) as [prompt|] eqn:Hp.
  - eexists. rewrite (script_with_prompt chat_input s prompt (reply prompt) Hp).
    + rewrite Hs. cbn [flat_map exchange app]. reflexivity.
    + rewrite Hs. apply handle_prompt_reply.
  - eexists. rewrite (script_without_prompt chat_input s Hp).
    rewrite Hs. cbn [flat_map]. rewrite app_nil_r. reflexivity.
Qed.

Lemma reruns_shipped (inputs : list (option string)) (s : session) :
  store s = MOCK_POLICY_DATA ->
  fst (reruns inputs s) = map (fun _ => Returned tt) inputs
  /\ store (snd (reruns inputs s)) = MOCK_POLICY_DATA
  /\ transcript (snd (reruns inputs s))
     = (transcript s ++ flat_map exchange (prompts_of inputs))%list.
Proof.
  revert s; induction inputs as [|chat_input later IH]; intros s Hs.
  - cbn. now rewrite app_nil_r.
  - destruct (script_shipped chat_input s Hs) as [page Hrun].
    cbn [reruns]. rewrite Hrun.
    set (s' := {| store := MOCK_POLICY_DATA;
                  messages := Some (transcript s
                                      ++ flat_map exchange (prompts_of [chat_input]))%list |}).
    destruct (IH s' eq_refl) as [Hres [Hstore Htr]].
    destruct (reruns later s') as [results s''] eqn:E. cbn [fst snd] in *.
    split; [now rewrite Hres|]. split; [exact Hstore|].
    rewrite Htr. unfold s', transcript at 1. cbn [messages].
    rewrite <- app_assoc. f_equal.
    unfold prompts_of. cbn [flat_map]. rewrite app_nil_r.
    now rewrite flat_map_app.
Qed.

(** X11. Over any number of interactions, starting from a session that holds the
    shipped dictionary, no run raises, the dictionary stays the shipped one,
    and the messages grow at the end only: they are the earlier messages
    followed, for each non-empty prompt in order, by the user's prompt and the
    assistant's answer to it, which is what a turn returns for that prompt. *)
Theorem session_messages_are_the_exchanges
  (inputs : list (option string)) (s : session)
  (Hstore : store s = MOCK_POLICY_DATA) :
  fst (reruns inputs s) = map (fun _ => Returned tt) inputs
  /\ store (snd (reruns inputs s)) = MOCK_POLICY_DATA
  /\ transcript (snd (reruns inputs s))
     = (transcript s ++ flat_map exchange (prompts_of inputs))%list
  /\ (forall prompt, run (handle_prompt prompt) = Returned (reply prompt)).
Proof.
  destruct (reruns_shipped inputs s Hstore) as [H1 [H2 H3]].
  repeat (split; [assumption|]).
  intros prompt. unfold run. now rewrite handle_prompt_reply.
Qed.

Lemma session_messages_are_the_exchanges_witness :
  fst (reruns [Some "premium for policy_1002"; None; Some ""; Some "hello"] new_session)
  = map (fun _ => Returned tt) [Some "premium for policy_1002"; None; Some ""; Some "hello"]
  /\ store (snd (reruns [Some "premium for policy_1002"; None; Some ""; Some "hello"]
                   new_session))
     = MOCK_POLICY_DATA
  /\ transcript (snd (reruns [Some "premium for policy_1002"; None; Some ""; Some "hello"]
                        new_session))
     = (transcript new_session
          ++ flat_map exchange
               (prompts_of [Some "premium for policy_1002"; None; Some ""; Some "hello"]))%list
  /\ (forall prompt, run (handle_prompt prompt) = Returned (reply prompt)).
Proof.
  apply (session_messages_are_the_exchanges
           [Some "premium for policy_1002"; None; Some ""; Some "hello"] new_session).
  reflexivity.
Defined.

(** X12. In a session started fresh, the messages alternate between the user and
    the assistant, starting with the user, two for every non-empty prompt. *)
Theorem fresh_session_roles_alternate (inputs : list (option string)) :
  map role (transcript (snd (reruns inputs new_session)))
  = flat_map (fun _ => ["user"; "assistant"]) (prompts_of inputs)
  /\ List.length (transcript (snd (reruns inputs new_session)))
     = 2 * List.length (prompts_of inputs).
Proof.
  destruct (reruns_shipped inputs new_session eq_refl) as [_ [_ ->]].
  cbn [transcript new_session messages app].
  induction (prompts_of inputs) as [|prompt prompts [IH1 IH2]]; [split; reflexivity|].
  cbn [flat_map exchange app map role List.length].
  rewrite IH1, IH2. split; [reflexivity|].
  rewrite Nat.mul_succ_r, Nat.add_comm. reflexivity.
Qed.
